(** * chatgpt_api: token-budget accounting of the chat loop (main.go)

    A shallow embedding of [main.go]: the [SessionStats] tracker with its
    [update] and [display] methods, [countTokens], and the conversation loop
    of [main], followed by the properties of the specification.

    Go's [int] is taken at 64 bits (two's complement, silent wrap-around);
    [float64] is IEEE 754 binary64, modelled with the Standard Library's
    [SpecFloat] (precision 53, emax 1024). *)

From Stdlib Require Import ZArith List String Ascii Bool Lia.
From Stdlib Require Import DecimalString.
From Stdlib Require Import Permutation.
From Stdlib Require Import SpecFloat.
Import ListNotations.

Local Open Scope string_scope.
Local Open Scope Z_scope.

(** ** Go's [int] *)

Module GoInt.

Definition int_min : Z := - 2 ^ 63.
Definition int_max : Z := 2 ^ 63 - 1.

(** The value an [int] variable holds after storing the mathematical
    integer [z]. *)
Definition wrap (z : Z) : Z := (z + 2 ^ 63) mod 2 ^ 64 - 2 ^ 63.

Definition in_int (z : Z) : Prop := int_min <= z <= int_max.

Definition int_add (a b : Z) : Z := wrap (a + b).
Definition int_sub (a b : Z) : Z := wrap (a - b).

End GoInt.
Import GoInt.

(** ** The session tracker *)

(** [var ( MaxTokens = 4096 )]: never assigned after its declaration. *)
Definition MaxTokens : Z := 4096.

Record SessionStats := mkStats {
  totalTokens : Z;
  messageCount : Z;
  remainingTokens : Z
}.

(** [func (s *SessionStats) update(newTokens int)] *)
Definition update (s : SessionStats) (newTokens : Z) : SessionStats :=
  let total := int_add (totalTokens s) newTokens in
  {| totalTokens := total;
     messageCount := int_add (messageCount s) 1;
     remainingTokens := int_sub MaxTokens total |}.

(** [stats := &SessionStats{ remainingTokens: MaxTokens }] *)
Definition fresh_stats : SessionStats :=
  {| totalTokens := 0; messageCount := 0; remainingTokens := MaxTokens |}.

(** The tracker after a sequence of [update] calls. *)
Definition updates (s : SessionStats) (ns : list Z) : SessionStats :=
  fold_left update ns s.

(** The invariant of the tracker, in the arithmetic of the program. *)
Definition remaining_ok (s : SessionStats) : Prop :=
  remainingTokens s = int_sub MaxTokens (totalTokens s).

(** ** Console formatting *)

Definition nl : string := String (ascii_of_nat 10) EmptyString.

(** The verb [%d] of package fmt: decimal digits, a leading minus sign for a
    negative number. *)
Definition fmt_d (z : Z) : string := NilZero.string_of_int (Z.to_int z).

(** ** float64 *)

Module Float64.

Definition prec : Z := 53.
Definition emax : Z := 1024.

Definition float64 := spec_float.

(** The conversion [float64(n)] of an [int]: round to nearest, ties to even. *)
Definition of_int (n : Z) : float64 := binary_normalize prec emax n 0 false.

Definition div (x y : float64) : float64 := SFdiv prec emax x y.
Definition mul (x y : float64) : float64 := SFmul prec emax x y.

(** Rounding of the non-negative rational [n / d] ([0 < d]) to an integer,
    to nearest, a tie going to the even neighbour. *)
Definition round_half_even (n d : Z) : Z :=
  let q := n / d in
  let r := n mod d in
  match 2 * r ?= d with
  | Lt => q
  | Gt => q + 1
  | Eq => if Z.even q then q else q + 1
  end.

(** Rounding as the specification words it ("standard rounding"): [n / d]
    to nearest, a tie going up.  Not used by the program; [display] is
    compared with it below. *)
Definition round_half_up (n d : Z) : Z := (2 * n + d) / (2 * d).

(** [tenths m e] is the magnitude [m * 2^e] in tenths, rounded to nearest
    even: what package strconv keeps of the exact decimal expansion of a
    finite float64 when asked for one digit after the point. *)
Definition tenths (m : positive) (e : Z) : Z :=
  if 0 <=? e then 10 * Zpos m * 2 ^ e
  else round_half_even (10 * Zpos m) (2 ^ (- e)).

(** A count of tenths written with one digit after the decimal point. *)
Definition show_tenths (t : Z) : string :=
  fmt_d (t / 10) ++ "." ++ fmt_d (t mod 10).

Definition sign_str (s : bool) : string := if s then "-" else "".

(** The verb [%.1f] of package fmt (strconv.FormatFloat with format 'f' and
    precision 1): the exact value of the float, correctly rounded to one
    decimal, ties to even. *)
Definition fmt_1f (x : float64) : string :=
  match x with
  | S754_zero s => sign_str s ++ "0.0"
  | S754_infinity s => if s then "-Inf" else "+Inf"
  | S754_nan => "NaN"
  | S754_finite s m e => sign_str s ++ show_tenths (tenths m e)
  end.

End Float64.

(** [float64(s.totalTokens)/float64(MaxTokens)*100] *)
Definition context_usage (s : SessionStats) : Float64.float64 :=
  Float64.mul
    (Float64.div (Float64.of_int (totalTokens s)) (Float64.of_int MaxTokens))
    (Float64.of_int 100).

(** The six writes of [func (s *SessionStats) display()], in order. *)
Definition display_lines (s : SessionStats) : list string :=
  [ nl ++ "=== Session Stats ===" ++ nl;
    "Messages: " ++ fmt_d (messageCount s) ++ nl;
    "Tokens Used: " ++ fmt_d (totalTokens s) ++ nl;
    "Tokens Remaining: " ++ fmt_d (remainingTokens s) ++ nl;
    "Context Usage: " ++ Float64.fmt_1f (context_usage s) ++ "%" ++ nl;
    "===================" ++ nl ++ nl ].

(** The percentage as [display] shows it, without the label. *)
Definition shown_percentage (s : SessionStats) : string :=
  Float64.fmt_1f (context_usage s) ++ "%".

(** ** Collaborators of the loop *)

(** An [error] value, as its message. *)
Definition error := string.

Inductive Role := System | User | Assistant.

Record Message := mkMessage { role : Role; content : string }.

Definition SystemMessage (c : string) : Message := mkMessage System c.
Definition UserMessage (c : string) : Message := mkMessage User c.
Definition AssistantMessage (c : string) : Message := mkMessage Assistant c.

(** A loaded encoding: its method [Encode(text, nil, nil)]. *)
Definition Tiktoken := string -> list Z.

(** What one call of [tiktoken.GetEncoding] answers for an encoding name. *)
Definition Encodings := string -> Tiktoken + error.

(** [func countTokens(text string) (int, error)] *)
Definition countTokens (GetEncoding : Encodings) (text : string)
  : Z * option error :=
  let encoding := "cl100k_base" in
  match GetEncoding encoding with
  | inr err => (0, Some err)
  | inl tkm =>
      let tokens := tkm text in
      (Z.of_nat (List.length tokens), None)
  end.

Record ChatCompletionChunkChoice := mkChoice { Delta_Content : string }.
Record ChatCompletionChunk := mkChunk { Choices : list ChatCompletionChunkChoice }.

(** A finished stream: the chunks [Next] delivered, then what [Err] reports. *)
Record Stream := mkStream {
  chunks : list ChatCompletionChunk;
  Err : option error
}.

(** What the outside world supplies to one iteration of the loop: the line
    the scanner returns, the tokenizer library at the first and at the second
    call of [countTokens], and the remote completion service. *)
Record TurnIO := mkTurnIO {
  line : string;
  encodings_input : Encodings;
  NewStreaming : list Message -> Stream;
  encodings_response : Encodings
}.

(** ** The conversation loop *)

Record Session := mkSession {
  messages : list Message;
  stats : SessionStats;
  stdout : list string;   (* the writes to standard output, oldest first *)
  stderr : list string    (* the writes to standard error, oldest first *)
}.

Definition print (st : Session) (out : list string) : Session :=
  {| messages := messages st; stats := stats st;
     stdout := (stdout st ++ out)%list; stderr := stderr st |}.

Definition eprint (st : Session) (out : list string) : Session :=
  {| messages := messages st; stats := stats st;
     stdout := stdout st; stderr := (stderr st ++ out)%list |}.

Definition append_message (st : Session) (m : Message) : Session :=
  {| messages := (messages st ++ [m])%list; stats := stats st;
     stdout := stdout st; stderr := stderr st |}.

Definition update_stats (st : Session) (newTokens : Z) : Session :=
  {| messages := messages st; stats := update (stats st) newTokens;
     stdout := stdout st; stderr := stderr st |}.

(** [stats.display()] *)
Definition display (st : Session) : Session :=
  print st (display_lines (stats st)).

Definition prompt : string :=
  nl ++ "Enter your question (or 'q' to exit): ".

Definition budget_warning (total inputTokens : Z) : string :=
  "Warning: Adding this input would exceed token limit (" ++ fmt_d total
  ++ " + " ++ fmt_d inputTokens ++ " > " ++ fmt_d MaxTokens ++ ")" ++ nl.

(** [fmt.Printf("\n> %s\n\n", input)] *)
Definition echo (input : string) : string := nl ++ "> " ++ input ++ nl ++ nl.

(** [fmt.Fprintf(os.Stderr, "Error counting tokens: %v\n", err)] *)
Definition count_error (err : error) : string :=
  "Error counting tokens: " ++ err ++ nl.

(** [fmt.Fprintln(os.Stderr, "Error from OpenAI:", err)] *)
Definition openai_error (err : error) : string :=
  "Error from OpenAI: " ++ err ++ nl.

Definition final_stats : string := "Final Stats:" ++ nl.

(** [for stream.Next() { ... }]: every chunk with at least one choice prints
    the content of its first choice and appends it to the builder. *)
Fixpoint collect (evts : list ChatCompletionChunk) (st : Session)
  (assistantResponse : string) : Session * string :=
  match evts with
  | [] => (st, assistantResponse)
  | evt :: rest =>
      match Choices evt with
      | c :: _ =>
          let content := Delta_Content c in
          collect rest (print st [content]) (assistantResponse ++ content)
      | [] => collect rest st assistantResponse
      end
  end.

Inductive Outcome :=
  | Continue (st : Session)   (* the loop goes on to its next iteration *)
  | Break (st : Session).     (* the loop is left: [main] returns *)

(** Lines 104-139 of [main]: the part of the loop body that runs once the
    input has passed the budget check. *)
Definition exchange (io : TurnIO) (st : Session) (input : string)
  (inputTokens : Z) : Outcome :=
  let st := append_message st (UserMessage input) in
  let st := update_stats st inputTokens in
  let st := print st [echo input] in
  let stream := NewStreaming io (messages st) in
  let '(st, assistantResponse) := collect (chunks stream) st "" in
  let st := print st [nl] in
  let st := append_message st (AssistantMessage assistantResponse) in
  let '(responseTokens, _) :=
    countTokens (encodings_response io) assistantResponse in
  let st := update_stats st responseTokens in
  let st := display st in
  match Err stream with
  | Some err => Continue (eprint st [openai_error err])
  | None => Continue st
  end.

(** The body of the [for] loop of [main]. *)
Definition iteration (io : TurnIO) (st : Session) : Outcome :=
  let st := print st [prompt] in
  let input := line io in
  if String.eqb input "q" then
    Break (display (print st [final_stats]))
  else
    match countTokens (encodings_input io) input with
    | (_, Some err) =>
        Continue (eprint st [count_error err])
    | (inputTokens, None) =>
        if int_add inputTokens (totalTokens (stats st)) >? MaxTokens then
          Continue (print st
                      [budget_warning (totalTokens (stats st)) inputTokens])
        else exchange io st input inputTokens
    end.

(** The state [main] builds before the loop. *)
Definition initial : Session :=
  {| messages := [SystemMessage "You are a helpful assistant."];
     stats := fresh_stats;
     stdout := [];
     stderr := [] |}.

(** The loop over the iterations the world has supplied so far; [Continue]
    at the end of the list is a loop still waiting for a line. *)
Fixpoint loop (ios : list TurnIO) (st : Session) : Outcome :=
  match ios with
  | [] => Continue st
  | io :: rest =>
      match iteration io st with
      | Break st' => Break st'
      | Continue st' => loop rest st'
      end
  end.

(** [func main()] *)
Definition main (ios : list TurnIO) : Outcome := loop ios initial.

(** The exit status of the process: [main] returning is status 0; a loop
    still running has none. *)
Definition exit_status (o : Outcome) : option Z :=
  match o with
  | Break _ => Some 0
  | Continue _ => None
  end.

Definition session_of (o : Outcome) : Session :=
  match o with Continue st | Break st => st end.

(** The text the assistant message of a turn holds for the chunks received. *)
Fixpoint response_text (evts : list ChatCompletionChunk) : string :=
  match evts with
  | [] => ""
  | evt :: rest =>
      match Choices evt with
      | c :: _ => Delta_Content c ++ response_text rest
      | [] => response_text rest
      end
  end.

(** The fragments printed for the chunks received. *)
Fixpoint response_fragments (evts : list ChatCompletionChunk) : list string :=
  match evts with
  | [] => []
  | evt :: rest =>
      match Choices evt with
      | c :: _ => Delta_Content c :: response_fragments rest
      | [] => response_fragments rest
      end
  end.

(** A stream of plain content fragments, one choice per chunk. *)
Definition fragments (fs : list string) : list ChatCompletionChunk :=
  map (fun f => mkChunk [mkChoice f]) fs.

(** ** Sample worlds

    Concrete collaborators on which the statements below are evaluated. *)

Module Sample.

(** A loaded encoding answering [n] tokens for every text. *)
Definition tokens_fixed (n : nat) : Tiktoken := fun _ => repeat 0 n.

(** An encoding library that loads, and one whose encoding is unavailable. *)
Definition loads (tkm : Tiktoken) : Encodings := fun _ => inl tkm.
Definition unavailable : Encodings := fun _ => inr "encoding unavailable".

Definition hello_world : list ChatCompletionChunk :=
  fragments ["Hello"; " world"].

(** A ten-token question answered by "Hello", " world", two tokens. *)
Definition question : TurnIO :=
  {| line := "What is a goroutine?";
     encodings_input := loads (tokens_fixed 10);
     NewStreaming := fun _ => mkStream hello_world None;
     encodings_response := loads (tokens_fixed 2) |}.

(** The same question when the stream breaks after "Hello". *)
Definition broken_stream : TurnIO :=
  {| line := "What is a goroutine?";
     encodings_input := loads (tokens_fixed 10);
     NewStreaming := fun _ => mkStream (fragments ["Hello"])
                                        (Some "unexpected EOF");
     encodings_response := loads (tokens_fixed 1) |}.

(** A stream that fails before any fragment arrives. *)
Definition silent_failure : TurnIO :=
  {| line := "What is a goroutine?";
     encodings_input := loads (tokens_fixed 10);
     NewStreaming := fun _ => mkStream [] (Some "connection refused");
     encodings_response := loads (tokens_fixed 0) |}.

(** The encoding cannot be loaded when the input is counted. *)
Definition input_uncountable : TurnIO :=
  {| line := "What is a goroutine?";
     encodings_input := unavailable;
     NewStreaming := fun _ => mkStream hello_world None;
     encodings_response := loads (tokens_fixed 2) |}.

Definition quit : TurnIO :=
  {| line := "q";
     encodings_input := loads (tokens_fixed 1);
     NewStreaming := fun _ => mkStream [] None;
     encodings_response := loads (tokens_fixed 0) |}.

(** A session that has used 4090 tokens in 6 messages. *)
Definition nearly_full : Session :=
  {| messages := [SystemMessage "You are a helpful assistant."];
     stats := {| totalTokens := 4090; messageCount := 6; remainingTokens := 6 |};
     stdout := [];
     stderr := [] |}.

End Sample.

(** ** Vocabulary of the further properties *)

(** The sum of the arguments of a sequence of [update] calls. *)
Definition sum_tokens (ns : list Z) : Z := fold_right Z.add 0 ns.

(** The two messages one exchange adds to the transcript. *)
Definition turn_messages (p : string * string) : list Message :=
  [UserMessage (fst p); AssistantMessage (snd p)].

(** [represents x n d]: the float [x] is exactly the rational [n / d]. *)
Definition represents (x : Float64.float64) (n d : Z) : Prop :=
  match x with
  | S754_zero _ => n = 0
  | S754_finite s m e =>
      let v := if s then Zneg m else Zpos m in
      if 0 <=? e then v * 2 ^ e * d = n else v * d = n * 2 ^ (- e)
  | _ => False
  end.


(** The iteration reaches line 104: the line is not ["q"], it was counted
    without error and the count passes the budget check. *)
Definition accepted (io : TurnIO) (st : Session) : bool :=
  negb (String.eqb (line io) "q")
  && match countTokens (encodings_input io) (line io) with
     | (_, Some _) => false
     | (inputTokens, None) =>
         negb (int_add inputTokens (totalTokens (stats st)) >? MaxTokens)
     end.

(** The text the stream delivers for the line of [io] in session [st]. *)
Definition reply_text (io : TurnIO) (st : Session) : string :=
  response_text
    (chunks (NewStreaming io (messages st ++ [UserMessage (line io)])%list)).

(** The exchanges of a run, oldest first: for every accepted iteration up
    to the first ["q"], the line entered and the reply received. *)
Fixpoint exchanges (ios : list TurnIO) (st : Session)
  : list (string * string) :=
  match ios with
  | [] => []
  | io :: rest =>
      if String.eqb (line io) "q" then []
      else
        ((if accepted io st then [(line io, reply_text io st)] else [])
           ++ exchanges rest (session_of (iteration io st)))%list
  end.

(** [extends old new]: [new] is [old] with something appended. *)
Definition extends {A} (old new : list A) : Prop :=
  exists more, new = (old ++ more)%list.

(** Sessions and turns used to evaluate the further properties. *)
Module Scenario.

(** A session whose last reply took the total past the ceiling. *)
Definition over_budget : Session :=
  {| messages := [SystemMessage "You are a helpful assistant.";
                  UserMessage "Tell me everything.";
                  AssistantMessage "..."];
     stats := {| totalTokens := 5000; messageCount := 2;
                 remainingTokens := -904 |};
     stdout := [];
     stderr := [] |}.

(** A question of 10 tokens whose reply is counted at 5000 tokens. *)
Definition long_reply : TurnIO :=
  {| line := "Tell me everything.";
     encodings_input := Sample.loads (Sample.tokens_fixed 10);
     NewStreaming := fun _ => mkStream Sample.hello_world None;
     encodings_response := Sample.loads (Sample.tokens_fixed 5000) |}.

End Scenario.

(** * Properties *)

(** ** Arithmetic of [int] *)

Section IntFacts.

Lemma wrap_id z : in_int z -> wrap z = z.
Proof.
  unfold in_int, int_min, int_max, wrap. intros H.
  rewrite Z.mod_small; lia.
Qed.

Lemma wrap_in_int z : in_int (wrap z).
Proof.
  unfold in_int, int_min, int_max, wrap.
  pose proof (Z.mod_pos_bound (z + 2 ^ 63) (2 ^ 64) ltac:(lia)). lia.
Qed.

Lemma wrap_add_l a b : wrap (wrap a + b) = wrap (a + b).
Proof.
  unfold wrap.
  replace ((a + 2 ^ 63) mod 2 ^ 64 - 2 ^ 63 + b + 2 ^ 63)
    with ((a + 2 ^ 63) mod 2 ^ 64 + b) by lia.
  rewrite Zplus_mod_idemp_l. f_equal. f_equal. lia.
Qed.

Lemma wrap_add_r a b : wrap (a + wrap b) = wrap (a + b).
Proof. rewrite Z.add_comm, wrap_add_l. f_equal. lia. Qed.

Lemma wrap_sub_r a b : wrap (a - wrap b) = wrap (a - b).
Proof.
  unfold wrap.
  replace (a - ((b + 2 ^ 63) mod 2 ^ 64 - 2 ^ 63) + 2 ^ 63)
    with ((a + 2 ^ 64) - (b + 2 ^ 63) mod 2 ^ 64) by lia.
  rewrite Zminus_mod_idemp_r. f_equal. f_equal. lia.
Qed.

Lemma int_add_assoc a b c : int_add (int_add a b) c = int_add a (int_add b c).
Proof.
  unfold int_add. rewrite wrap_add_l, wrap_add_r. f_equal. lia.
Qed.

Lemma int_add_exact a b : in_int (a + b) -> int_add a b = a + b.
Proof. apply wrap_id. Qed.

End IntFacts.

(** ** The tracker *)

Section Tracker.

Lemma update_total s n : totalTokens (update s n) = int_add (totalTokens s) n.
Proof. reflexivity. Qed.

Lemma update_count s n : messageCount (update s n) = int_add (messageCount s) 1.
Proof. reflexivity. Qed.

Lemma update_remaining s n :
  remainingTokens (update s n) = int_sub MaxTokens (totalTokens (update s n)).
Proof. reflexivity. Qed.

Lemma updates_app s ns ms :
  updates s (ns ++ ms)%list = updates (updates s ns) ms.
Proof. apply fold_left_app. Qed.

Lemma updates_remaining_ok ns :
  forall s, remaining_ok s -> remaining_ok (updates s ns).
Proof.
  induction ns as [|n ns IH]; intros s Hs; simpl.
  - exact Hs.
  - apply IH. apply update_remaining.
Qed.

Lemma updates_total_in_int ns :
  forall s, in_int (totalTokens s) -> in_int (totalTokens (updates s ns)).
Proof.
  induction ns as [|n ns IH]; intros s Hs; simpl.
  - exact Hs.
  - apply IH. apply wrap_in_int.
Qed.

Lemma fresh_remaining_ok : remaining_ok fresh_stats.
Proof. reflexivity. Qed.

End Tracker.

(** ** The loop body *)

Section LoopBody.

Lemma string_app_nil_r (s : string) : s ++ "" = s.
Proof. induction s as [|a s IH]; simpl; congruence. Qed.

Lemma string_app_assoc (a b c : string) : (a ++ b) ++ c = a ++ (b ++ c).
Proof. induction a as [|x a IH]; simpl; congruence. Qed.

Lemma print_nil st : print st [] = st.
Proof. destruct st; unfold print; simpl. now rewrite app_nil_r. Qed.

Lemma print_print st a b : print (print st a) b = print st (a ++ b)%list.
Proof. unfold print; simpl. now rewrite app_assoc. Qed.

Lemma collect_spec evts :
  forall st buf,
    collect evts st buf
    = (print st (response_fragments evts), buf ++ response_text evts).
Proof.
  induction evts as [|evt rest IH]; intros st buf; simpl.
  - now rewrite print_nil, string_app_nil_r.
  - destruct (Choices evt) as [|c cs].
    + apply IH.
    + rewrite IH, print_print, string_app_assoc. reflexivity.
Qed.

(** The session an exchange ends in, field by field. *)
Lemma exchange_spec io st input k :
  let ms := (messages st ++ [UserMessage input])%list in
  let stream := NewStreaming io ms in
  let text := response_text (chunks stream) in
  let s' := update (update (stats st) k)
                   (fst (countTokens (encodings_response io) text)) in
  exchange io st input k =
  Continue
    {| messages := (ms ++ [AssistantMessage text])%list;
       stats := s';
       stdout := (stdout st ++ [echo input]
                    ++ response_fragments (chunks stream)
                    ++ [nl] ++ display_lines s')%list;
       stderr := match Err stream with
                 | Some err => (stderr st ++ [openai_error err])%list
                 | None => stderr st
                 end |}.
Proof.
  intros ms stream text s'. unfold exchange.
  change (messages (print (update_stats (append_message st (UserMessage input)) k)
                      [echo input])) with ms.
  fold stream. rewrite collect_spec. cbn [String.append]. fold text.
  destruct (countTokens (encodings_response io) text) as [r e] eqn:Hr.
  subst s'. cbn [fst].
  destruct (Err stream); unfold display, eprint, print, update_stats, append_message;
    cbn [messages stats stdout stderr]; subst ms; rewrite <- ?app_assoc; reflexivity.
Qed.

Lemma iteration_quit io st :
  line io = "q" ->
  iteration io st
  = Break (print st ([prompt; final_stats] ++ display_lines (stats st))).
Proof.
  intros H. unfold iteration. rewrite H. cbn [String.eqb Ascii.eqb Bool.eqb].
  unfold display. now rewrite !print_print.
Qed.

Lemma iteration_count_error io st k err :
  line io <> "q" ->
  countTokens (encodings_input io) (line io) = (k, Some err) ->
  iteration io st
  = Continue (eprint (print st [prompt]) [count_error err]).
Proof.
  intros Hq Hk. unfold iteration.
  apply String.eqb_neq in Hq. rewrite Hq, Hk. reflexivity.
Qed.

Lemma iteration_rejected io st k :
  line io <> "q" ->
  countTokens (encodings_input io) (line io) = (k, None) ->
  MaxTokens < int_add k (totalTokens (stats st)) ->
  iteration io st
  = Continue (print st [prompt; budget_warning (totalTokens (stats st)) k]).
Proof.
  intros Hq Hk Hb. unfold iteration.
  apply String.eqb_neq in Hq. rewrite Hq, Hk.
  cbn [stats print].
  destruct (Z.gtb_spec (int_add k (totalTokens (stats st))) MaxTokens) as [_|Hle];
    [|lia].
  now rewrite print_print.
Qed.

Lemma iteration_accepted io st k :
  line io <> "q" ->
  countTokens (encodings_input io) (line io) = (k, None) ->
  int_add k (totalTokens (stats st)) <= MaxTokens ->
  iteration io st = exchange io (print st [prompt]) (line io) k.
Proof.
  intros Hq Hk Hb. unfold iteration.
  apply String.eqb_neq in Hq. rewrite Hq, Hk.
  cbn [stats print].
  destruct (Z.gtb_spec (int_add k (totalTokens (stats st))) MaxTokens) as [Hgt|_];
    [lia|reflexivity].
Qed.

End LoopBody.

(** ** Facts about whole iterations *)

Section Iterations.

Lemma exchange_continues io st input k :
  exists st', exchange io st input k = Continue st'
    /\ List.length (messages st') = (List.length (messages st) + 2)%nat.
Proof.
  rewrite exchange_spec. eexists; split; [reflexivity|].
  cbn [messages]. rewrite !length_app. simpl. lia.
Qed.

Lemma exchange_stats io st input k :
  exists r, stats (session_of (exchange io st input k))
            = update (update (stats st) k) r.
Proof. rewrite exchange_spec. eexists. reflexivity. Qed.

Lemma iteration_stats io st :
  stats (session_of (iteration io st)) = stats st
  \/ exists k r, stats (session_of (iteration io st))
                 = update (update (stats st) k) r.
Proof.
  unfold iteration.
  destruct (String.eqb (line io) "q"); [now left|].
  destruct (countTokens (encodings_input io) (line io)) as [k [e|]]; [now left|].
  cbn [stats print].
  destruct (int_add k (totalTokens (stats st)) >? MaxTokens); [now left|].
  right. exists k. apply (exchange_stats io (print st [prompt])).
Qed.

Lemma iteration_break io st st' :
  iteration io st = Break st' -> line io = "q".
Proof.
  unfold iteration.
  destruct (String.eqb_spec (line io) "q") as [H|H]; [trivial|].
  destruct (countTokens (encodings_input io) (line io)) as [k [e|]]; [discriminate|].
  destruct (_ >? _); [discriminate|].
  destruct (exchange_continues io (print st [prompt]) (line io) k) as (s & E & _).
  rewrite E. discriminate.
Qed.

Lemma loop_stats ios :
  forall st, exists ns, stats (session_of (loop ios st)) = updates (stats st) ns.
Proof.
  induction ios as [|io ios IH]; intros st; simpl.
  - now exists [].
  - assert (exists ns, stats (session_of (iteration io st)) = updates (stats st) ns)
      as [ns1 H1].
    { destruct (iteration_stats io st) as [H|(k & r & H)].
      - now exists [].
      - now exists [k; r]. }
    destruct (iteration io st) as [st'|st'].
    + destruct (IH st') as [ns2 H2]. exists (ns1 ++ ns2)%list.
      rewrite updates_app, H2. simpl in H1. now rewrite H1.
    + now exists ns1.
Qed.

Lemma loop_break ios :
  forall st, (exists st', loop ios st = Break st')
             <-> Exists (fun io => line io = "q") ios.
Proof.
  induction ios as [|io ios IH]; intros st; simpl.
  - split; [intros [? ?]; discriminate | intros H; inversion H].
  - destruct (iteration io st) as [st1|st1] eqn:E.
    + rewrite IH. split; [now right|].
      intros H. inversion H as [? ? Hq|]; subst; [|assumption].
      rewrite (iteration_quit io st Hq) in E. discriminate.
    + split; [|now eauto]. intros _. left. now apply (iteration_break io st st1).
Qed.

Lemma no_fragments_no_text evts :
  response_fragments evts = [] -> response_text evts = "".
Proof.
  induction evts as [|evt rest IH]; simpl; [trivial|].
  destruct (Choices evt); [exact IH | discriminate].
Qed.

End Iterations.

(** ** float64 arithmetic of [display] *)

Section FloatFacts.

Import Float64.

Lemma digits2_pos_size p : digits2_pos p = Pos.size p.
Proof. induction p; simpl; congruence. Qed.

Lemma digits2_log2 p : Zpos (digits2_pos p) = Z.log2 (Zpos p) + 1.
Proof.
  rewrite digits2_pos_size. destruct p; simpl; try reflexivity; lia.
Qed.

Lemma digits2_bounds p :
  2 ^ (Zpos (digits2_pos p) - 1) <= Zpos p < 2 ^ Zpos (digits2_pos p).
Proof.
  rewrite digits2_log2.
  replace (Z.log2 (Z.pos p) + 1 - 1) with (Z.log2 (Zpos p)) by lia.
  apply (Z.log2_spec (Zpos p)). lia.
Qed.

Lemma digits2_unique p d :
  2 ^ (d - 1) <= Zpos p < 2 ^ d -> Zpos (digits2_pos p) = d.
Proof.
  intros H. rewrite digits2_log2.
  assert (1 <= d).
  { destruct (Z.le_gt_cases 1 d); [assumption|].
    assert (d <= 0) by lia.
    assert (2 ^ d <= 2 ^ 0) by (destruct (Z.neg_nonneg_cases d); [rewrite Z.pow_neg_r by assumption; simpl; lia | apply Z.pow_le_mono_r; lia]).
    simpl in *. lia. }
  rewrite (Z.log2_unique (Zpos p) (d - 1)); try lia.
  replace (Z.succ (d - 1)) with d by lia. exact H.
Qed.

Lemma iter_pos_nat {A} (f : A -> A) p :
  forall x, iter_pos f p x = Nat.iter (Pos.to_nat p) f x.
Proof.
  induction p as [p IH|p IH|]; intros x; cbn [iter_pos].
  - rewrite !IH, Pos2Nat.inj_xI, <- Nat.iter_add, <- Nat.iter_succ_r.
    f_equal. lia.
  - rewrite !IH, Pos2Nat.inj_xO, <- Nat.iter_add. f_equal. lia.
  - reflexivity.
Qed.

Lemma shr_1_even z :
  shr_1 (Build_shr_record (2 * z) false false) = Build_shr_record z false false.
Proof. destruct z; reflexivity. Qed.

Lemma shr_iter_exact n :
  forall z, Nat.iter n shr_1 (Build_shr_record (z * 2 ^ Z.of_nat n) false false)
            = Build_shr_record z false false.
Proof.
  induction n as [|n IH]; intros z.
  - simpl. now rewrite Z.mul_1_r.
  - rewrite Nat.iter_succ_r.
    replace (z * 2 ^ Z.of_nat (S n)) with (2 * (z * 2 ^ Z.of_nat n)).
    + now rewrite shr_1_even, IH.
    + rewrite Nat2Z.inj_succ, Z.pow_succ_r by lia. lia.
Qed.

Lemma round_aux_exact s M e n m :
  0 <= n -> Zpos M = Zpos m * 2 ^ n -> Zpos (digits2_pos m) = 53 ->
  -1074 <= e + n <= 971 ->
  binary_round_aux prec emax s (Zpos M) e loc_Exact = S754_finite s m (e + n).
Proof.
  intros Hn HM Hd He.
  pose proof (digits2_bounds m) as Hm. rewrite Hd in Hm.
  assert (HdM : Zdigits2 (Zpos M) = 53 + n).
  { cbn [Zdigits2]. apply digits2_unique. rewrite HM.
    replace (53 + n - 1) with (52 + n) by lia.
    rewrite !Z.pow_add_r by lia.
    assert (0 < 2 ^ n) by (apply Z.pow_pos_nonneg; lia).
    simpl in Hm. nia. }
  assert (Hshr : shr (Build_shr_record (Zpos M) false false) e n
                 = (Build_shr_record (Zpos m) false false, e + n)).
  { destruct n as [|q|q]; [| |lia].
    - rewrite Z.pow_0_r, Z.mul_1_r in HM. rewrite HM, Z.add_0_r. reflexivity.
    - unfold shr. rewrite iter_pos_nat, HM, <- (positive_nat_Z q).
      now rewrite shr_iter_exact. }
  unfold binary_round_aux, shr_fexp. rewrite HdM.
  replace (fexp prec emax (53 + n + e) - e) with n
    by (unfold fexp, SpecFloat.emin, prec, emax; lia).
  cbn [shr_record_of_loc]. rewrite Hshr.
  cbn [shr_m loc_of_shr_record round_nearest_even Zdigits2]. rewrite Hd.
  replace (fexp prec emax (53 + (e + n)) - (e + n)) with 0
    by (unfold fexp, SpecFloat.emin, prec, emax; lia).
  cbn [shr shr_m].
  destruct (Z.leb_spec (e + n) (emax - prec)) as [_|H]; [reflexivity|].
  unfold emax, prec in H. lia.
Qed.

Lemma pos_iter_xO p k : Zpos (Pos.iter xO p k) = Zpos p * 2 ^ Zpos k.
Proof.
  induction k as [|k IH] using Pos.peano_ind.
  - simpl. lia.
  - rewrite Pos.iter_succ, Pos2Z.inj_xO, IH, Pos2Z.inj_succ, Z.pow_succ_r by lia.
    lia.
Qed.

Lemma digits2_le p k : 0 <= k -> Zpos p < 2 ^ k -> Zpos (digits2_pos p) <= k.
Proof.
  intros Hk Hp. pose proof (digits2_bounds p) as [Hlo _].
  assert (H : 2 ^ (Zpos (digits2_pos p) - 1) < 2 ^ k) by lia.
  apply Z.pow_lt_mono_r_iff in H; lia.
Qed.

(** A positive number of at most 53 bits, shifted left to exactly 53 bits. *)
Lemma normalize_exists p :
  Zpos (digits2_pos p) <= 53 ->
  exists m, Zpos m = Zpos p * 2 ^ (53 - Zpos (digits2_pos p))
            /\ Zpos (digits2_pos m) = 53.
Proof.
  intros Hd. set (d := Zpos (digits2_pos p)) in *.
  assert (Hpos : 0 < Zpos p * 2 ^ (53 - d))
    by (apply Z.mul_pos_pos; [lia | apply Z.pow_pos_nonneg; lia]).
  destruct (Zpos p * 2 ^ (53 - d)) as [|m|m] eqn:E; try lia.
  exists m. split; [reflexivity|].
  apply digits2_unique. rewrite <- E.
  pose proof (digits2_bounds p) as Hb. fold d in Hb.
  assert (0 < 2 ^ (53 - d)) by (apply Z.pow_pos_nonneg; lia).
  replace (2 ^ (53 - 1)) with (2 ^ (d - 1) * 2 ^ (53 - d))
    by (rewrite <- Z.pow_add_r by lia; f_equal; lia).
  replace (2 ^ 53) with (2 ^ d * 2 ^ (53 - d))
    by (rewrite <- Z.pow_add_r by lia; f_equal; lia).
  nia.
Qed.

Lemma of_int_exact p m :
  Zpos (digits2_pos p) <= 53 ->
  Zpos m = Zpos p * 2 ^ (53 - Zpos (digits2_pos p)) ->
  Zpos (digits2_pos m) = 53 ->
  of_int (Zpos p) = S754_finite false m (Zpos (digits2_pos p) - 53).
Proof.
  intros Hd Hm Hdm. unfold of_int, binary_normalize, binary_round.
  set (d := Zpos (digits2_pos p)) in *.
  replace (fexp prec emax (d + 0)) with (d - 53)
    by (unfold fexp, SpecFloat.emin, prec, emax; lia).
  unfold shl_align. destruct (d - 53 - 0) as [|k|k] eqn:E; try lia.
  - replace (53 - d) with 0 in Hm by lia.
    rewrite Z.pow_0_r, Z.mul_1_r in Hm. injection Hm as ->.
    rewrite (round_aux_exact false p 0 0 p); try lia.
    f_equal. lia.
  - rewrite (round_aux_exact false _ (d - 53) 0 m); try lia.
    + f_equal. lia.
    + rewrite pos_iter_xO, Z.pow_0_r, Z.mul_1_r, Hm. f_equal. f_equal. lia.
Qed.

Lemma div_eucl_pair a b : Z.div_eucl a b = (a / b, a mod b).
Proof. unfold Z.div, Z.modulo. now destruct (Z.div_eucl a b). Qed.

Lemma of_int_MaxTokens :
  of_int MaxTokens = S754_finite false 4503599627370496 (-40).
Proof. reflexivity. Qed.

Lemma of_int_100 : of_int 100 = S754_finite false 7036874417766400 (-46).
Proof. reflexivity. Qed.

Lemma div_MaxTokens_exact m e :
  Zpos (digits2_pos m) = 53 -> -1000 <= e <= 900 ->
  div (S754_finite false m e) (of_int MaxTokens) = S754_finite false m (e - 12).
Proof.
  intros Hd He. rewrite of_int_MaxTokens. unfold div, SFdiv, SFdiv_core_binary.
  cbn [Zdigits2]. rewrite Hd.
  change (Z.pos (digits2_pos 4503599627370496)) with 53.
  replace (Z.min (fexp prec emax (53 + e - (53 + -40))) (e - -40)) with (e - 13)
    by (unfold fexp, SpecFloat.emin, prec, emax; lia).
  replace (e - -40 - (e - 13)) with 53 by lia.
  rewrite div_eucl_pair, Z.shiftl_mul_pow2 by lia.
  replace (Zpos m * 2 ^ 53) with (Zpos m~0 * 4503599627370496) by lia.
  rewrite Z.div_mul, Z.mod_mul by lia.
  change (new_location 4503599627370496 0) with loc_Exact.
  cbn [xorb].
  rewrite (round_aux_exact false (m~0) (e - 13) 1 m); try lia.
  f_equal. lia.
Qed.

(** The float computed by [display] for a total of at most 48 bits is the
    exact quotient [25 * total / 1024]. *)
Lemma context_usage_exact p mc rem :
  Zpos p < 2 ^ 48 ->
  exists m,
    context_usage (mkStats (Zpos p) mc rem)
    = S754_finite false m (Zpos (digits2_pos (25 * p)) - 63)
    /\ Zpos m = 25 * Zpos p * 2 ^ (53 - Zpos (digits2_pos (25 * p)))
    /\ Zpos (digits2_pos (25 * p)) <= 53.
Proof.
  intros Hp. unfold context_usage. cbn [totalTokens].
  set (d := Zpos (digits2_pos p)).
  set (d' := Zpos (digits2_pos (25 * p))).
  assert (Hd : d <= 48) by (apply digits2_le; lia).
  assert (Hd' : d' <= 53) by (apply digits2_le; lia).
  assert (Hd1 : 1 <= d) by (unfold d; lia).
  assert (Hd1' : 1 <= d') by (unfold d'; lia).
  destruct (normalize_exists p) as (m0 & Hm0 & Hdm0); [fold d; lia|].
  destruct (normalize_exists (25 * p)) as (m & Hm & Hdm); [fold d'; lia|].
  fold d in Hm0. fold d' in Hm.
  exists m. split; [|split; [rewrite Hm; lia | exact Hd']].
  rewrite (of_int_exact p m0), div_MaxTokens_exact, of_int_100;
    fold d; try assumption; try lia.
  unfold mul, SFmul. cbn [xorb].
  rewrite (round_aux_exact false _ (d - 53 - 12 + -46) (48 - d + d') m);
    try assumption; try lia.
  - f_equal. lia.
  - rewrite Pos2Z.inj_mul, Hm0, Hm.
    replace (Zpos 7036874417766400) with (25 * 2 ^ 48) by reflexivity.
    assert (E1 : 2 ^ (53 - d') * 2 ^ (48 - d + d') = 2 ^ (101 - d))
      by (rewrite <- Z.pow_add_r by lia; f_equal; lia).
    assert (E2 : 2 ^ (53 - d) * 2 ^ 48 = 2 ^ (101 - d))
      by (rewrite <- Z.pow_add_r by lia; f_equal; lia).
    transitivity (25 * Zpos p * 2 ^ (101 - d)).
    + rewrite <- E2. ring.
    + rewrite <- E1. rewrite Pos2Z.inj_mul. ring.
Qed.

Lemma round_half_even_scale n d c :
  0 < d -> 0 < c -> round_half_even (n * c) (d * c) = round_half_even n d.
Proof.
  intros Hd Hc. unfold round_half_even.
  rewrite Z.div_mul_cancel_r, Z.mul_mod_distr_r by lia.
  assert (E : (2 * (n mod d * c) ?= d * c) = (2 * (n mod d) ?= d)).
  { destruct (Z.compare_spec (2 * (n mod d * c)) (d * c));
      destruct (Z.compare_spec (2 * (n mod d)) d); try reflexivity; nia. }
  now rewrite E.
Qed.

Lemma shown_percentage_exact s :
  0 <= totalTokens s < 2 ^ 48 ->
  shown_percentage s
  = show_tenths (round_half_even (1000 * totalTokens s) MaxTokens) ++ "%".
Proof.
  destruct s as [total mc rem]. cbn [totalTokens]. intros Ht.
  destruct total as [|p|p]; [reflexivity| |lia].
  destruct (context_usage_exact p mc rem) as (m & Hcu & Hm & Hd); [lia|].
  unfold shown_percentage. rewrite Hcu.
  set (d := Zpos (digits2_pos (25 * p))) in *.
  unfold fmt_1f, sign_str, tenths. cbn [String.append].
  destruct (Z.leb_spec 0 (d - 63)) as [H|_]; [lia|].
  rewrite Hm.
  replace (10 * (25 * Zpos p * 2 ^ (53 - d)))
    with (250 * Zpos p * 2 ^ (53 - d)) by ring.
  replace (2 ^ (- (d - 63))) with (1024 * 2 ^ (53 - d))
    by (change 1024 with (2 ^ 10); rewrite <- Z.pow_add_r by lia; f_equal; lia).
  rewrite round_half_even_scale by (try apply Z.pow_pos_nonneg; lia).
  replace (1000 * Zpos p) with (250 * Zpos p * 4) by ring.
  change MaxTokens with (1024 * 4).
  now rewrite round_half_even_scale by lia.
Qed.

End FloatFacts.

(** * The claims of the specification *)

(** ** Session tracker *)

(** C4. Invariant of SessionStats: after initialisation and after any
    sequence of [update] calls, [remainingTokens == MaxTokens - totalTokens]
    holds as the program evaluates it, and it is the equation over the
    integers whenever the subtraction does not overflow (in particular for
    every non-negative total).  Nothing but [update] changes the stats while
    the loop runs: one iteration leaves them as they were or applies [update]
    twice, and the stats of any run are those of a sequence of [update] calls
    on the fresh tracker. *)
Theorem remaining_invariant :
  (forall ns,
      let s := updates fresh_stats ns in
      remaining_ok s
      /\ (int_min + MaxTokens < totalTokens s ->
          remainingTokens s = MaxTokens - totalTokens s))
  /\ (forall io st,
         stats (session_of (iteration io st)) = stats st
         \/ exists k r, stats (session_of (iteration io st))
                        = update (update (stats st) k) r)
  /\ (forall ios,
         exists ns, stats (session_of (main ios)) = updates fresh_stats ns).
Proof.
  split; [|split].
  - intros ns s.
    assert (Hok : remaining_ok s)
      by (apply updates_remaining_ok, fresh_remaining_ok).
    split; [exact Hok|]. intros Hlow.
    assert (Hin : in_int (totalTokens s)).
    { apply updates_total_in_int. unfold in_int, int_min, int_max. simpl. lia. }
    rewrite Hok. apply wrap_id.
    unfold in_int, int_min, int_max, MaxTokens in *. lia.
  - apply iteration_stats.
  - intros ios. apply (loop_stats ios initial).
Qed.

Lemma remaining_invariant_witness :
  remainingTokens (updates fresh_stats [10; 2]) = 4084.
Proof.
  rewrite (proj2 (proj1 remaining_invariant [10; 2])).
  - reflexivity.
  - vm_compute. reflexivity.
Defined.

(** C5. For every non-negative [int] [t], one [update(t)] on a fresh tracker
    gives [totalTokens = t], [messageCount = 1] and
    [remainingTokens = MaxTokens - t]; nothing clamps the remainder, which is
    negative as soon as [t] exceeds [MaxTokens]. *)
Theorem update_fresh t :
  0 <= t <= int_max ->
  update fresh_stats t
  = {| totalTokens := t; messageCount := 1; remainingTokens := MaxTokens - t |}
  /\ (MaxTokens < t -> remainingTokens (update fresh_stats t) < 0).
Proof.
  intros Ht.
  assert (E : update fresh_stats t
              = {| totalTokens := t; messageCount := 1;
                   remainingTokens := MaxTokens - t |}).
  { unfold update, fresh_stats, int_add, int_sub. cbn [totalTokens messageCount].
    rewrite (wrap_id (0 + t)), (wrap_id (0 + 1)), (wrap_id (MaxTokens - (0 + t)));
      unfold in_int, int_min, int_max, MaxTokens in *; try lia.
    f_equal; lia. }
  split; [exact E|]. intros Hbig. rewrite E. cbn [remainingTokens]. lia.
Qed.

Lemma update_fresh_witness :
  update fresh_stats 5000
  = {| totalTokens := 5000; messageCount := 1; remainingTokens := -904 |}
  /\ remainingTokens (update fresh_stats 5000) < 0.
Proof.
  assert (H : 0 <= 5000 <= int_max) by (unfold int_max; lia).
  split.
  - exact (proj1 (update_fresh 5000 H)).
  - apply (proj2 (update_fresh 5000 H)). unfold MaxTokens. lia.
Defined.

(** C6. [update] composes additively: from every tracker state and for all
    [int]s [a] and [b], [update(a)] then [update(b)] leaves the same
    [totalTokens] and [remainingTokens] as the single call [update(a+b)],
    and a [messageCount] one increment further. *)
Theorem update_additive s a b :
  let two := update (update s a) b in
  let one := update s (int_add a b) in
  totalTokens two = totalTokens one
  /\ remainingTokens two = remainingTokens one
  /\ messageCount two = int_add (messageCount one) 1
  /\ messageCount one = int_add (messageCount s) 1
  /\ messageCount two = int_add (messageCount s) 2
  /\ update s (a + b) = one.
Proof.
  cbn zeta.
  assert (T : int_add (int_add (totalTokens s) a) b
              = int_add (totalTokens s) (int_add a b)) by apply int_add_assoc.
  assert (W : int_add (totalTokens s) (a + b)
              = int_add (totalTokens s) (int_add a b))
    by (unfold int_add; now rewrite wrap_add_r).
  repeat split.
  - exact T.
  - unfold update; cbn [totalTokens remainingTokens]. now rewrite T.
  - unfold update, int_add; cbn [messageCount]. rewrite wrap_add_l. f_equal. lia.
  - unfold update; cbn [totalTokens remainingTokens messageCount]. now rewrite W.
Qed.

(** ** Conversation loop *)

(** C1. Budget check: an input counted at [k] tokens, met with a running
    total [T], goes on to the exchange exactly when [T + k <= MaxTokens] (the
    sum as the program computes it, which is the sum over the integers
    whenever it is representable); otherwise the warning is written, the loop
    continues, and the transcript and the three counters are as before. *)
Theorem budget_check io st k :
  line io <> "q" ->
  countTokens (encodings_input io) (line io) = (k, None) ->
  let T := totalTokens (stats st) in
  let turn := exchange io (print st [prompt]) (line io) k in
  let skipped :=
    {| messages := messages st; stats := stats st;
       stdout := (stdout st ++ [prompt; budget_warning T k])%list;
       stderr := stderr st |} in
  (iteration io st = turn <-> int_add k T <= MaxTokens)
  /\ (iteration io st <> turn -> iteration io st = Continue skipped)
  /\ (in_int (T + k) -> (iteration io st = turn <-> T + k <= MaxTokens)).
Proof.
  intros Hq Hk T turn skipped.
  assert (Hacc : int_add k T <= MaxTokens -> iteration io st = turn)
    by (apply iteration_accepted; assumption).
  assert (Hrej : MaxTokens < int_add k T -> iteration io st = Continue skipped)
    by (apply iteration_rejected; assumption).
  assert (Hne : Continue skipped <> turn).
  { intros E. subst turn.
    destruct (exchange_continues io (print st [prompt]) (line io) k)
      as (st' & E' & Hlen).
    rewrite E' in E. injection E as <-. cbn [messages print skipped] in Hlen. lia. }
  assert (Hiff : iteration io st = turn <-> int_add k T <= MaxTokens).
  { split; [|exact Hacc]. intros E.
    destruct (Z.le_gt_cases (int_add k T) MaxTokens) as [|Hgt]; [assumption|].
    rewrite (Hrej Hgt) in E. now apply Hne in E. }
  split; [exact Hiff|]. split.
  - intros Hn. apply Hrej.
    destruct (Z.le_gt_cases (int_add k T) MaxTokens) as [Hle|]; [|assumption].
    now apply Hacc in Hle.
  - intros Hin. rewrite Hiff, (int_add_exact k T), (Z.add_comm k T);
      [reflexivity|]. now rewrite Z.add_comm.
Qed.

(** C2. A failure the stream reports at its end is written to standard
    error and the loop continues; the assistant text received before the
    failure stays in the transcript, after the user message, and what
    [countTokens] returns for it is added to the stats. *)
Theorem stream_failure_keeps_partial_reply io st k err :
  line io <> "q" ->
  countTokens (encodings_input io) (line io) = (k, None) ->
  int_add k (totalTokens (stats st)) <= MaxTokens ->
  let ms := (messages st ++ [UserMessage (line io)])%list in
  let stream := NewStreaming io ms in
  let text := response_text (chunks stream) in
  let r := fst (countTokens (encodings_response io) text) in
  Err stream = Some err ->
  exists st',
    iteration io st = Continue st'
    /\ stderr st' = (stderr st ++ ["Error from OpenAI: " ++ err ++ nl]%string)%list
    /\ messages st' = (ms ++ [AssistantMessage text])%list
    /\ stats st' = update (update (stats st) k) r
    /\ totalTokens (stats st') = int_add (int_add (totalTokens (stats st)) k) r
    /\ stdout st' = (stdout st ++ [prompt; echo (line io)]
                       ++ response_fragments (chunks stream)
                       ++ [nl] ++ display_lines (stats st'))%list.
Proof.
  intros Hq Hk Hb ms stream text r Herr.
  rewrite (iteration_accepted io st k Hq Hk Hb), exchange_spec.
  cbn [messages stats stdout stderr print].
  fold ms stream text r. rewrite Herr.
  eexists. split; [reflexivity|]. cbn [messages stats stdout stderr].
  repeat split. now rewrite <- app_assoc.
Qed.


(** C9. The loop is left exactly on the input ["q"]: that iteration prints
    the prompt, "Final Stats:" and the stats summary, changes neither the
    transcript nor the stats, and [main] returns, which is exit status 0; a
    run ends if and only if one of its input lines is ["q"]. *)
Theorem quit_sentinel :
  (forall io st, (exists st', iteration io st = Break st') <-> line io = "q")
  /\ (forall io st,
         line io = "q" ->
         iteration io st
         = Break {| messages := messages st; stats := stats st;
                    stdout :=
                      (stdout st
                         ++ [ nl ++ "Enter your question (or 'q' to exit): ";
                              "Final Stats:" ++ nl;
                              nl ++ "=== Session Stats ===" ++ nl;
                              "Messages: " ++ fmt_d (messageCount (stats st)) ++ nl;
                              "Tokens Used: " ++ fmt_d (totalTokens (stats st)) ++ nl;
                              "Tokens Remaining: "
                                ++ fmt_d (remainingTokens (stats st)) ++ nl;
                              "Context Usage: "
                                ++ Float64.fmt_1f (context_usage (stats st))
                                ++ "%" ++ nl;
                              "===================" ++ nl ++ nl ]%string)%list;
                    stderr := stderr st |}
         /\ exit_status (iteration io st) = Some 0)
  /\ (forall ios,
         exit_status (main ios) = Some 0
         <-> Exists (fun io => line io = "q") ios).
Proof.
  split; [|split].
  - intros io st. split.
    + intros [st' E]. exact (iteration_break io st st' E).
    + intros Hq. rewrite (iteration_quit io st Hq). eauto.
  - intros io st Hq. rewrite (iteration_quit io st Hq). split; reflexivity.
  - intros ios. rewrite <- (loop_break ios initial). unfold main.
    destruct (loop ios initial) as [s|s]; simpl; split.
    + discriminate.
    + intros [? ?]; discriminate.
    + eauto.
    + reflexivity.
Qed.

(** C10. A turn whose input passes the budget check appends exactly two
    messages, the user message and then one assistant message, and counts
    two messages, whatever the stream delivers and however it ends; when no
    chunk carries a choice the assistant message is the empty string and is
    counted at what [countTokens] returns for the empty string. *)
Theorem accepted_turn_appends_two io st k :
  line io <> "q" ->
  countTokens (encodings_input io) (line io) = (k, None) ->
  int_add k (totalTokens (stats st)) <= MaxTokens ->
  let stream := NewStreaming io (messages st ++ [UserMessage (line io)])%list in
  let text := response_text (chunks stream) in
  let st' := session_of (iteration io st) in
  messages st'
  = (messages st ++ [UserMessage (line io); AssistantMessage text])%list
  /\ messageCount (stats st') = int_add (messageCount (stats st)) 2
  /\ (in_int (messageCount (stats st)) ->
      in_int (messageCount (stats st) + 2) ->
      messageCount (stats st') = messageCount (stats st) + 2)
  /\ (response_fragments (chunks stream) = [] ->
      text = ""
      /\ stats st'
         = update (update (stats st) k)
                  (fst (countTokens (encodings_response io) ""))).
Proof.
  intros Hq Hk Hb stream text st'. subst st'.
  rewrite (iteration_accepted io st k Hq Hk Hb), exchange_spec.
  cbn [session_of messages stats print]. fold stream text.
  assert (Hc : int_add (int_add (messageCount (stats st)) 1) 1
               = int_add (messageCount (stats st)) 2).
  { unfold int_add. rewrite wrap_add_l. f_equal. lia. }
  split; [now rewrite <- app_assoc|].
  split; [exact Hc|]. split.
  - intros _ H2. cbn [update messageCount]. rewrite Hc. now apply int_add_exact.
  - intros Hnone. apply no_fragments_no_text in Hnone. fold text in Hnone.
    split; [exact Hnone|]. now rewrite Hnone.
Qed.

(** C7. End to end: from the fresh session, an input counted at 10 tokens
    answered by the fragments "Hello" and " world", counted together at 2
    tokens, leaves [messageCount = 2], [totalTokens = 12] and
    [remainingTokens = 4084]. *)
Theorem end_to_end_hello_world io :
  line io <> "q" ->
  countTokens (encodings_input io) (line io) = (10, None) ->
  chunks (NewStreaming io (messages initial ++ [UserMessage (line io)])%list)
  = fragments ["Hello"; " world"] ->
  fst (countTokens (encodings_response io) "Hello world") = 2 ->
  let st' := session_of (main [io]) in
  stats st'
  = {| totalTokens := 12; messageCount := 2; remainingTokens := 4084 |}
  /\ messages st'
     = [SystemMessage "You are a helpful assistant."; UserMessage (line io);
        AssistantMessage "Hello world"].
Proof.
  intros Hq Hk Hs Hr st'. subst st'. unfold main, loop.
  assert (Hb : int_add 10 (totalTokens (stats initial)) <= MaxTokens)
    by (vm_compute; discriminate).
  rewrite (iteration_accepted io initial 10 Hq Hk Hb), exchange_spec.
  cbn [session_of messages stats print]. rewrite Hs.
  change (response_text (fragments ["Hello"; " world"])) with "Hello world".
  rewrite Hr. split; reflexivity.
Qed.

(** ** The statements on sample worlds *)

Lemma budget_check_witness :
  iteration Sample.question Sample.nearly_full
  = Continue
      {| messages := messages Sample.nearly_full;
         stats := stats Sample.nearly_full;
         stdout := [prompt; budget_warning 4090 10];
         stderr := [] |}
  /\ (iteration Sample.question initial
      = exchange Sample.question (print initial [prompt])
                 (line Sample.question) 10
      <-> 0 + 10 <= MaxTokens).
Proof.
  assert (Hq : line Sample.question <> "q") by discriminate.
  assert (Hk : countTokens (encodings_input Sample.question)
                           (line Sample.question) = (10, None)) by reflexivity.
  assert (Hin : forall T, 0 <= T <= 4096 -> in_int (T + 10))
    by (unfold in_int, int_min, int_max; lia).
  split.
  - destruct (budget_check Sample.question Sample.nearly_full 10 Hq Hk)
      as (_ & Hrej & Hmath).
    apply Hrej. intros E. apply Hmath in E.
    + vm_compute in E. now apply E.
    + apply Hin. simpl. lia.
  - destruct (budget_check Sample.question initial 10 Hq Hk) as (_ & _ & Hmath).
    apply Hmath. apply Hin. simpl. lia.
Defined.

Lemma stream_failure_keeps_partial_reply_witness :
  exists st',
    iteration Sample.broken_stream initial = Continue st'
    /\ stderr st' = ["Error from OpenAI: unexpected EOF" ++ nl]%string
    /\ messages st'
       = [SystemMessage "You are a helpful assistant.";
          UserMessage "What is a goroutine?"; AssistantMessage "Hello"]
    /\ stats st'
       = {| totalTokens := 11; messageCount := 2; remainingTokens := 4085 |}.
Proof.
  destruct (stream_failure_keeps_partial_reply Sample.broken_stream initial 10
              "unexpected EOF")
    as (st' & E & H1 & H2 & H3 & _).
  - discriminate.
  - reflexivity.
  - vm_compute. discriminate.
  - reflexivity.
  - exists st'. repeat split; assumption.
Defined.


Lemma quit_sentinel_witness :
  iteration Sample.quit Sample.nearly_full
  = Break {| messages := messages Sample.nearly_full;
             stats := stats Sample.nearly_full;
             stdout := [ nl ++ "Enter your question (or 'q' to exit): ";
                         "Final Stats:" ++ nl;
                         nl ++ "=== Session Stats ===" ++ nl;
                         "Messages: 6" ++ nl;
                         "Tokens Used: 4090" ++ nl;
                         "Tokens Remaining: 6" ++ nl;
                         "Context Usage: 99.9%" ++ nl;
                         "===================" ++ nl ++ nl ]%string;
             stderr := [] |}
  /\ exit_status (iteration Sample.quit Sample.nearly_full) = Some 0.
Proof.
  apply (proj1 (proj2 quit_sentinel) Sample.quit Sample.nearly_full).
  reflexivity.
Defined.

Lemma accepted_turn_appends_two_witness :
  let st' := session_of (iteration Sample.silent_failure initial) in
  messages st'
  = [SystemMessage "You are a helpful assistant.";
     UserMessage "What is a goroutine?"; AssistantMessage ""]
  /\ messageCount (stats st') = 2
  /\ stats st'
     = {| totalTokens := 10; messageCount := 2; remainingTokens := 4086 |}.
Proof.
  assert (Hq : line Sample.silent_failure <> "q") by discriminate.
  assert (Hk : countTokens (encodings_input Sample.silent_failure)
                           (line Sample.silent_failure) = (10, None))
    by reflexivity.
  assert (Hb : int_add 10 (totalTokens (stats initial)) <= MaxTokens)
    by (vm_compute; discriminate).
  pose proof (accepted_turn_appends_two Sample.silent_failure initial 10 Hq Hk Hb)
    as (Hm & _ & Hc & Hz).
  cbv zeta. split; [exact Hm|]. split.
  - apply Hc; vm_compute; split; discriminate.
  - apply (Hz eq_refl).
Defined.

Lemma end_to_end_hello_world_witness :
  stats (session_of (main [Sample.question]))
  = {| totalTokens := 12; messageCount := 2; remainingTokens := 4084 |}.
Proof.
  apply (end_to_end_hello_world Sample.question).
  - discriminate.
  - reflexivity.
  - reflexivity.
  - reflexivity.
Defined.

(** ** Display *)

(** C8 (as amended). [display] shows the share of the context window used,
    [totalTokens / MaxTokens * 100], with one digit after the decimal point,
    rounded to nearest with a tie going to the even digit; this is exact for
    every total from 0 up to [2^48].  For [totalTokens = 100] the line reads
    2.4%. *)
Theorem display_percentage s :
  0 <= totalTokens s < 2 ^ 48 ->
  shown_percentage s
  = Float64.show_tenths
      (Float64.round_half_even (1000 * totalTokens s) MaxTokens) ++ "%"
  /\ nth 4 (display_lines s) "" = "Context Usage: " ++ shown_percentage s ++ nl
  /\ (totalTokens s = 100 -> shown_percentage s = "2.4%").
Proof.
  intros Ht. split; [now apply shown_percentage_exact|]. split.
  { unfold shown_percentage. now rewrite string_app_assoc. }
  intros H100. rewrite shown_percentage_exact, H100 by assumption. reflexivity.
Qed.

Lemma display_percentage_witness :
  shown_percentage (mkStats 100 2 3996) = "2.4%"
  /\ nth 4 (display_lines (mkStats 100 2 3996)) "" = "Context Usage: 2.4%" ++ nl.
Proof.
  assert (H : 0 <= totalTokens (mkStats 100 2 3996) < 2 ^ 48)
    by (simpl; lia).
  destruct (display_percentage (mkStats 100 2 3996) H) as (_ & Hline & H100).
  split.
  - apply H100. reflexivity.
  - rewrite Hline, (H100 eq_refl). reflexivity.
Defined.

(** C8, counterexample.  With [totalTokens = 256] the share is exactly
    6.25: [display] prints 6.2%, where rounding a tie up gives 6.3%. *)
Lemma display_percentage_tie_at_256 :
  let s := mkStats 256 4 3840 in
  1000 * totalTokens s = 62 * MaxTokens + MaxTokens / 2
  /\ shown_percentage s = "6.2%"
  /\ Float64.show_tenths
       (Float64.round_half_up (1000 * totalTokens s) MaxTokens) ++ "%" = "6.3%"
  /\ shown_percentage s
     <> Float64.show_tenths
          (Float64.round_half_up (1000 * totalTokens s) MaxTokens) ++ "%".
Proof.
  cbv zeta. repeat split; try reflexivity.
  vm_compute. discriminate.
Qed.

(** * Further properties of the code *)

(** ** The tracker over many calls *)

Section TrackerRuns.

Lemma updates_total ns :
  forall s, totalTokens (updates s ns) = wrap (totalTokens s + sum_tokens ns)
            \/ (ns = [] /\ totalTokens (updates s ns) = totalTokens s).
Proof.
  induction ns as [|n ns IH]; intros s.
  - right. split; reflexivity.
  - left. cbn [updates fold_left sum_tokens fold_right].
    destruct (IH (update s n)) as [H|[-> H]].
    + unfold updates in H. rewrite H. cbn [update totalTokens]. unfold int_add.
      rewrite wrap_add_l. f_equal. fold (sum_tokens ns). lia.
    + cbn [fold_left update totalTokens fold_right]. unfold int_add.
      f_equal. lia.
Qed.

Lemma updates_count ns :
  forall s, messageCount (updates s ns)
            = wrap (messageCount s + Z.of_nat (List.length ns))
            \/ (ns = [] /\ messageCount (updates s ns) = messageCount s).
Proof.
  induction ns as [|n ns IH]; intros s.
  - right. split; reflexivity.
  - left. cbn [updates fold_left].
    destruct (IH (update s n)) as [H|[-> H]].
    + unfold updates in H. rewrite H. cbn [update messageCount]. unfold int_add.
      rewrite wrap_add_l. f_equal. cbn [List.length]. lia.
    + cbn [fold_left update messageCount List.length]. unfold int_add.
      f_equal.
Qed.

Lemma sum_tokens_nonneg ns : Forall (fun n => 0 <= n) ns -> 0 <= sum_tokens ns.
Proof.
  induction 1 as [|n ns Hn _ IH]; cbn [sum_tokens fold_right]; [lia|].
  fold (sum_tokens ns). lia.
Qed.

End TrackerRuns.

(** X1. After any sequence of [update] calls on the fresh tracker,
    [totalTokens] is the sum of the arguments and [messageCount] the number
    of calls, both as 64-bit ints; when the arguments are non-negative and
    their sum fits an [int], the three fields are the sum, the number of
    calls and [MaxTokens] minus the sum. *)
Theorem updates_fresh_sum ns :
  let s := updates fresh_stats ns in
  totalTokens s = wrap (sum_tokens ns)
  /\ messageCount s = wrap (Z.of_nat (List.length ns))
  /\ (Forall (fun n => 0 <= n) ns -> sum_tokens ns <= int_max ->
      Z.of_nat (List.length ns) <= int_max ->
      s = {| totalTokens := sum_tokens ns;
             messageCount := Z.of_nat (List.length ns);
             remainingTokens := MaxTokens - sum_tokens ns |}).
Proof.
  intros s.
  assert (HT : totalTokens s = wrap (sum_tokens ns)).
  { destruct (updates_total ns fresh_stats) as [H|[-> H]]; [exact H|reflexivity]. }
  assert (HC : messageCount s = wrap (Z.of_nat (List.length ns))).
  { destruct (updates_count ns fresh_stats) as [H|[-> H]]; [exact H|reflexivity]. }
  split; [exact HT|]. split; [exact HC|].
  intros Hpos Hsum Hlen. apply sum_tokens_nonneg in Hpos.
  assert (HR : remaining_ok s)
    by (apply updates_remaining_ok, fresh_remaining_ok).
  rewrite wrap_id in HT by (unfold in_int, int_min, int_max in *; lia).
  rewrite wrap_id in HC by (unfold in_int, int_min, int_max in *; lia).
  unfold remaining_ok, int_sub in HR. rewrite HT, wrap_id in HR
    by (unfold in_int, int_min, int_max, MaxTokens in *; lia).
  destruct s as [t c r]. cbn in HT, HC, HR. now subst.
Qed.

Lemma updates_fresh_sum_witness :
  updates fresh_stats [10; 2; 30; 400]
  = {| totalTokens := 442; messageCount := 4; remainingTokens := 3654 |}.
Proof.
  apply (proj2 (proj2 (updates_fresh_sum [10; 2; 30; 400]))).
  - repeat constructor; lia.
  - vm_compute. discriminate.
  - vm_compute. discriminate.
Defined.

Lemma update_swap s a b : update (update s a) b = update (update s b) a.
Proof.
  unfold update. cbn [totalTokens messageCount].
  assert (E : int_add (int_add (totalTokens s) a) b
              = int_add (int_add (totalTokens s) b) a).
  { unfold int_add. rewrite !wrap_add_l. f_equal. lia. }
  now rewrite E.
Qed.

(** X2. The tracker does not depend on the order of the [update] calls:
    two sequences with the same arguments in a different order leave the
    same stats, from every state. *)
Theorem updates_permutation ns ms :
  Permutation ns ms -> forall s, updates s ns = updates s ms.
Proof.
  induction 1 as [|x l l' _ IH|x y l|l l' l'' _ IH1 _ IH2]; intros s.
  - reflexivity.
  - apply (IH (update s x)).
  - cbn [updates fold_left]. now rewrite update_swap.
  - now rewrite IH1.
Qed.

Lemma updates_permutation_witness :
  updates fresh_stats [10; 2; 30] = updates fresh_stats [30; 10; 2].
Proof.
  apply updates_permutation.
  apply Permutation_sym. apply (Permutation_cons_app [10; 2] [] 30).
  apply Permutation_refl.
Defined.

(** ** Runs of the loop *)

Section Runs.

Lemma countTokens_nonneg ge text : 0 <= fst (countTokens ge text).
Proof.
  unfold countTokens. destruct (ge "cl100k_base"); cbn [fst]; lia.
Qed.

(** What one iteration does to the transcript and the stats. *)
Lemma iteration_effect io st :
  let st' := session_of (iteration io st) in
  (messages st' = messages st /\ stats st' = stats st)
  \/ (exists a k r,
         0 <= k /\ 0 <= r
         /\ countTokens (encodings_input io) (line io) = (k, None)
         /\ int_add k (totalTokens (stats st)) <= MaxTokens
         /\ r = fst (countTokens (encodings_response io) a)
         /\ messages st' = (messages st ++ turn_messages (line io, a))%list
         /\ stats st' = update (update (stats st) k) r).
Proof.
  cbv zeta. unfold iteration.
  destruct (String.eqb (line io) "q"); [now left|].
  pose proof (countTokens_nonneg (encodings_input io) (line io)) as Hk.
  destruct (countTokens (encodings_input io) (line io)) as [k [e|]] eqn:Ek;
    [now left|].
  cbn [stats print fst] in *.
  destruct (Z.gtb_spec (int_add k (totalTokens (stats st))) MaxTokens) as [|Hle];
    [now left|].
  right. rewrite exchange_spec. cbn [session_of messages stats print].
  eexists _, k, _. repeat split; try eassumption.
  - apply countTokens_nonneg.
  - unfold turn_messages. cbn [fst snd]. now rewrite <- app_assoc.
Qed.

Lemma loop_invariant (P : Session -> Prop) :
  (forall io st, P st -> P (session_of (iteration io st))) ->
  forall ios st, P st -> P (session_of (loop ios st)).
Proof.
  intros Hstep ios. induction ios as [|io ios IH]; intros st Hst; cbn [loop].
  - exact Hst.
  - specialize (Hstep io st Hst).
    destruct (iteration io st) as [st'|st']; [now apply IH | exact Hstep].
Qed.

End Runs.

Section Exchanges.

Lemma iteration_not_accepted io st :
  accepted io st = false ->
  messages (session_of (iteration io st)) = messages st
  /\ stats (session_of (iteration io st)) = stats st.
Proof.
  unfold accepted, iteration.
  destruct (String.eqb (line io) "q"); [now split|].
  destruct (countTokens (encodings_input io) (line io)) as [k [e|]];
    [now split|].
  cbn [stats print negb andb].
  destruct (int_add k (totalTokens (stats st)) >? MaxTokens);
    [now split | discriminate].
Qed.

Lemma iteration_is_accepted io st :
  accepted io st = true ->
  messages (session_of (iteration io st))
  = (messages st ++ turn_messages (line io, reply_text io st))%list
  /\ messageCount (stats (session_of (iteration io st)))
     = int_add (messageCount (stats st)) 2.
Proof.
  unfold accepted, iteration.
  destruct (String.eqb (line io) "q"); [discriminate|].
  destruct (countTokens (encodings_input io) (line io)) as [k [e|]];
    [discriminate|].
  cbn [stats print negb andb].
  destruct (int_add k (totalTokens (stats st)) >? MaxTokens); [discriminate|].
  intros _. rewrite exchange_spec.
  cbn [session_of messages stats print update messageCount].
  split.
  - unfold turn_messages, reply_text. cbn [fst snd]. now rewrite <- app_assoc.
  - rewrite int_add_assoc. reflexivity.
Qed.

Lemma loop_exchanges ios :
  forall st,
    in_int (messageCount (stats st)) ->
    messages (session_of (loop ios st))
    = (messages st ++ flat_map turn_messages (exchanges ios st))%list
    /\ messageCount (stats (session_of (loop ios st)))
       = wrap (messageCount (stats st)
               + 2 * Z.of_nat (List.length (exchanges ios st))).
Proof.
  induction ios as [|io ios IH]; intros st Hin; cbn [loop exchanges].
  - cbn. rewrite app_nil_r, Z.add_0_r, wrap_id by assumption. now split.
  - destruct (String.eqb_spec (line io) "q") as [Hq|Hq].
    + rewrite (iteration_quit io st Hq).
      cbn. rewrite app_nil_r, Z.add_0_r, wrap_id by assumption. now split.
    + assert (Hc : iteration io st = Continue (session_of (iteration io st))).
      { destruct (iteration io st) as [s|s] eqn:E; [reflexivity|].
        now apply iteration_break in E. }
      rewrite Hc. cbn [session_of]. set (s1 := session_of (iteration io st)).
      destruct (accepted io st) eqn:Ha.
      * destruct (iteration_is_accepted io st Ha) as [Em Ec]. fold s1 in Em, Ec.
        destruct (IH s1) as [IHm IHc]; [rewrite Ec; apply wrap_in_int|].
        rewrite IHm, IHc, Em, Ec. split.
        -- cbn [app flat_map]. now rewrite <- app_assoc.
        -- unfold int_add. rewrite wrap_add_l. f_equal.
           cbn [app List.length]. lia.
      * destruct (iteration_not_accepted io st Ha) as [Em Es]. fold s1 in Em, Es.
        destruct (IH s1) as [IHm IHc]; [now rewrite Es|].
        rewrite IHm, IHc, Em, Es. now split.
Qed.

End Exchanges.

(** X3. The transcript of every run is the system message followed by one
    (user, assistant) pair per exchange of the run, in order: the line
    entered and the reply received in each accepted iteration.
    [messageCount] is twice the number of exchanges, which is the number of
    messages after the system message (as a 64-bit int). *)
Theorem transcript_shape ios :
  let st := session_of (main ios) in
  let pairs := exchanges ios initial in
  messages st
  = SystemMessage "You are a helpful assistant." :: flat_map turn_messages pairs
  /\ messageCount (stats st) = wrap (2 * Z.of_nat (List.length pairs))
  /\ (Z.of_nat (List.length (messages st)) - 1 <= int_max ->
      messageCount (stats st) = Z.of_nat (List.length (messages st)) - 1).
Proof.
  cbv zeta. unfold main.
  destruct (loop_exchanges ios initial) as [Hm Hc];
    [cbn; unfold in_int, int_min, int_max; lia|].
  cbn [initial messages stats messageCount fresh_stats] in Hm, Hc.
  rewrite Z.add_0_l in Hc.
  split; [exact Hm|]. split; [exact Hc|].
  assert (Hlen : Z.of_nat (List.length (messages (session_of (loop ios initial)))) - 1
                 = 2 * Z.of_nat (List.length (exchanges ios initial))).
  { rewrite Hm. cbn [List.length app]. rewrite length_flat_map.
    assert (E : forall l : list (string * string),
               list_sum (map (fun x => List.length (turn_messages x)) l)
               = (2 * List.length l)%nat).
    { induction l as [|x l IHl]; simpl in *; lia. }
    rewrite E. lia. }
  intros Hfit. rewrite Hc, Hlen. apply wrap_id.
  unfold in_int, int_min, int_max in *. lia.
Qed.

Lemma transcript_shape_witness :
  messages (session_of (main [Sample.question; Sample.input_uncountable;
                              Sample.broken_stream; Sample.quit]))
  = [SystemMessage "You are a helpful assistant.";
     UserMessage "What is a goroutine?"; AssistantMessage "Hello world";
     UserMessage "What is a goroutine?"; AssistantMessage "Hello"]
  /\ messageCount (stats (session_of
                            (main [Sample.question; Sample.input_uncountable;
                                   Sample.broken_stream; Sample.quit]))) = 4.
Proof.
  destruct (transcript_shape [Sample.question; Sample.input_uncountable;
                              Sample.broken_stream; Sample.quit])
    as (Hm & _ & Hc).
  split; [exact Hm|]. rewrite Hc; [reflexivity|]. vm_compute. discriminate.
Defined.

Section RunFacts.

Lemma extends_refl {A} (l : list A) : extends l l.
Proof. exists []. now rewrite app_nil_r. Qed.

Lemma extends_app {A} (l more : list A) : extends l (l ++ more)%list.
Proof. now exists more. Qed.

Lemma extends_trans {A} (a b c : list A) :
  extends a b -> extends b c -> extends a c.
Proof.
  intros [x ->] [y ->]. exists (x ++ y)%list. now rewrite app_assoc.
Qed.

Lemma iteration_extends io st :
  let st' := session_of (iteration io st) in
  extends (messages st) (messages st')
  /\ extends (stdout st) (stdout st')
  /\ extends (stderr st) (stderr st').
Proof.
  cbv zeta. unfold iteration.
  destruct (String.eqb (line io) "q").
  { cbn. rewrite <- !app_assoc. auto using extends_refl, extends_app. }
  destruct (countTokens (encodings_input io) (line io)) as [k [e|]].
  { cbn. auto using extends_refl, extends_app. }
  cbn [stats print].
  destruct (int_add k (totalTokens (stats st)) >? MaxTokens).
  { cbn. rewrite <- !app_assoc. auto using extends_refl, extends_app. }
  rewrite exchange_spec. cbn [session_of messages stdout stderr print].
  rewrite <- !app_assoc. repeat split; try apply extends_app.
  destruct (Err _); [apply extends_app | apply extends_refl].
Qed.

Lemma loop_app a b :
  forall st,
    loop (a ++ b)%list st
    = match loop a st with
      | Break s => Break s
      | Continue s => loop b s
      end.
Proof.
  induction a as [|io a IH]; intros st; cbn [loop app]; [reflexivity|].
  destruct (iteration io st); [apply IH | reflexivity].
Qed.

Lemma loop_continues ios :
  Forall (fun io => line io <> "q") ios ->
  forall st, loop ios st = Continue (session_of (loop ios st)).
Proof.
  intros Hq st. destruct (loop ios st) as [s|s] eqn:E; [reflexivity|].
  assert (H : Exists (fun io => line io = "q") ios)
    by (apply (loop_break ios st); eauto).
  apply Exists_exists in H. destruct H as (io & Hin & Hio).
  rewrite Forall_forall in Hq. now destruct (Hq io Hin).
Qed.

Lemma concat_fragments evts :
  String.concat "" (response_fragments evts) = response_text evts.
Proof.
  induction evts as [|evt rest IH]; cbn [response_fragments response_text];
    [reflexivity|].
  destruct (Choices evt) as [|c cs]; [exact IH|].
  cbn [String.concat]. rewrite <- IH.
  destruct (response_fragments rest); cbn [String.concat String.append];
    [now rewrite string_app_nil_r | reflexivity].
Qed.

End RunFacts.

(** X4. A run never takes anything back: whatever the inputs, the
    transcript, standard output and standard error at the end of a run are
    those at its start with something appended. *)
Theorem run_only_appends ios st :
  let st' := session_of (loop ios st) in
  extends (messages st) (messages st')
  /\ extends (stdout st) (stdout st')
  /\ extends (stderr st) (stderr st').
Proof.
  cbv zeta.
  apply (loop_invariant
           (fun s => extends (messages st) (messages s)
                     /\ extends (stdout st) (stdout s)
                     /\ extends (stderr st) (stderr s))).
  - intros io s (Hm & Ho & He).
    destruct (iteration_extends io s) as (Hm' & Ho' & He').
    repeat split; eapply extends_trans; eassumption.
  - auto using extends_refl.
Qed.

(** X5. Once [totalTokens] is above [MaxTokens] the session is wedged: no
    later input, whatever it is, changes the transcript or the stats (the
    counts of the inputs being small enough not to overflow the sum). *)
Theorem over_budget_is_final ios :
  forall st,
    MaxTokens < totalTokens (stats st) ->
    Forall (fun io =>
              totalTokens (stats st)
              + fst (countTokens (encodings_input io) (line io)) <= int_max) ios ->
    messages (session_of (loop ios st)) = messages st
    /\ stats (session_of (loop ios st)) = stats st.
Proof.
  induction ios as [|io ios IH]; intros st Hover Hfit; cbn [loop].
  - split; reflexivity.
  - inversion Hfit as [|? ? Hio Hrest]; subst.
    assert (Hsame : messages (session_of (iteration io st)) = messages st
                    /\ stats (session_of (iteration io st)) = stats st).
    { destruct (iteration_effect io st)
        as [H|(a & k & r & Hk & _ & Ek & Hle & _)]; [exact H|exfalso].
      rewrite Ek in Hio. cbn [fst] in Hio.
      rewrite int_add_exact in Hle; unfold in_int, int_min, int_max, MaxTokens in *; lia. }
    destruct Hsame as [Em Es].
    destruct (iteration io st) as [st1|st1]; cbn [session_of] in *.
    + rewrite <- Em, <- Es. apply IH; rewrite Es; assumption.
    + split; assumption.
Qed.

Lemma over_budget_is_final_witness :
  messages (session_of (loop [Sample.question; Scenario.long_reply]
                             Scenario.over_budget))
  = messages Scenario.over_budget
  /\ stats (session_of (loop [Sample.question; Scenario.long_reply]
                             Scenario.over_budget))
     = stats Scenario.over_budget.
Proof.
  apply over_budget_is_final.
  - vm_compute. reflexivity.
  - repeat constructor; vm_compute; discriminate.
Defined.

(** X6. Only the input is checked against the budget, not the reply: an
    accepted turn adds the input count [k] and the reply count [r] to the
    total, so the total never decreases, and [remainingTokens] ends at
    [MaxTokens - (T + k + r)], negative exactly when the reply is longer than
    what the input had left. *)
Theorem reply_is_not_budgeted io st k :
  line io <> "q" ->
  countTokens (encodings_input io) (line io) = (k, None) ->
  let T := totalTokens (stats st) in
  let text :=
    response_text
      (chunks (NewStreaming io (messages st ++ [UserMessage (line io)])%list)) in
  let r := fst (countTokens (encodings_response io) text) in
  let st' := session_of (iteration io st) in
  0 <= T ->
  T + k <= MaxTokens ->
  r <= int_max - MaxTokens ->
  totalTokens (stats st') = T + k + r
  /\ T <= totalTokens (stats st')
  /\ remainingTokens (stats st') = MaxTokens - (T + k + r)
  /\ (remainingTokens (stats st') < 0 <-> MaxTokens - (T + k) < r).
Proof.
  intros Hq Hk T text r st' HT Hle Hr. subst st'.
  pose proof (countTokens_nonneg (encodings_input io) (line io)) as Hk0.
  rewrite Hk in Hk0. cbn [fst] in Hk0.
  pose proof (countTokens_nonneg (encodings_response io) text) as Hr0.
  fold r in Hr0.
  assert (Hb : int_add k (totalTokens (stats st)) <= MaxTokens).
  { fold T. rewrite int_add_exact;
      unfold in_int, int_min, int_max, MaxTokens in *; lia. }
  rewrite (iteration_accepted io st k Hq Hk Hb), exchange_spec.
  cbn [session_of messages stats print update totalTokens remainingTokens].
  fold T text r.
  assert (E1 : int_add T k = T + k)
    by (apply int_add_exact; unfold in_int, int_min, int_max, MaxTokens in *; lia).
  assert (E2 : int_add (T + k) r = T + k + r)
    by (apply int_add_exact; unfold in_int, int_min, int_max, MaxTokens in *; lia).
  assert (E3 : int_sub MaxTokens (T + k + r) = MaxTokens - (T + k + r))
    by (apply wrap_id; unfold in_int, int_min, int_max, MaxTokens in *; lia).
  rewrite E1, E2, E3. repeat split; lia.
Qed.

Lemma reply_is_not_budgeted_witness :
  stats (session_of (iteration Scenario.long_reply initial))
  = {| totalTokens := 5010; messageCount := 2; remainingTokens := -914 |}
  /\ remainingTokens (stats (session_of (iteration Scenario.long_reply initial)))
     = MaxTokens - (0 + 10 + 5000).
Proof.
  split; [reflexivity|].
  apply (reply_is_not_budgeted Scenario.long_reply initial 10).
  - discriminate.
  - reflexivity.
  - vm_compute. discriminate.
  - vm_compute. discriminate.
  - vm_compute. discriminate.
Defined.

(** X7. Standard error is written only on errors, one line each: quitting
    and a budget rejection write nothing to it, whatever the stream would
    have reported; a failed count of the input writes
    "Error counting tokens: ..." ; an accepted exchange writes
    "Error from OpenAI: ..." when its stream reports an error and nothing
    otherwise. *)
Theorem stderr_only_on_errors io st :
  let st' := session_of (iteration io st) in
  let stream := NewStreaming io (messages st ++ [UserMessage (line io)])%list in
  (line io = "q" -> stderr st' = stderr st)
  /\ (forall k err,
        line io <> "q" ->
        countTokens (encodings_input io) (line io) = (k, Some err) ->
        stderr st'
        = (stderr st ++ ["Error counting tokens: " ++ err ++ nl]%string)%list)
  /\ (forall k,
        line io <> "q" ->
        countTokens (encodings_input io) (line io) = (k, None) ->
        (MaxTokens < int_add k (totalTokens (stats st)) ->
         stderr st' = stderr st)
        /\ (int_add k (totalTokens (stats st)) <= MaxTokens ->
            Err stream = None -> stderr st' = stderr st)
        /\ (forall err,
              int_add k (totalTokens (stats st)) <= MaxTokens ->
              Err stream = Some err ->
              stderr st'
              = (stderr st ++ ["Error from OpenAI: " ++ err ++ nl]%string)%list)).
Proof.
  cbv zeta. split; [|split].
  - intros Hq. now rewrite (iteration_quit io st Hq).
  - intros k err Hq Hk. now rewrite (iteration_count_error io st k err Hq Hk).
  - intros k Hq Hk. split; [|split].
    + intros Hgt. now rewrite (iteration_rejected io st k Hq Hk Hgt).
    + intros Hle He. rewrite (iteration_accepted io st k Hq Hk Hle), exchange_spec.
      cbn [session_of stderr messages print]. now rewrite He.
    + intros err Hle He.
      rewrite (iteration_accepted io st k Hq Hk Hle), exchange_spec.
      cbn [session_of stderr messages print]. now rewrite He.
Qed.

Lemma stderr_only_on_errors_witness :
  stderr (session_of (iteration Sample.broken_stream Sample.nearly_full)) = []
  /\ stderr (session_of (iteration Sample.broken_stream initial))
     = ["Error from OpenAI: unexpected EOF" ++ nl]%string
  /\ stderr (session_of (iteration Sample.input_uncountable initial))
     = ["Error counting tokens: encoding unavailable" ++ nl]%string.
Proof.
  assert (Hq : line Sample.broken_stream <> "q") by discriminate.
  assert (Hk : countTokens (encodings_input Sample.broken_stream)
                           (line Sample.broken_stream) = (10, None))
    by reflexivity.
  destruct (proj2 (proj2 (stderr_only_on_errors Sample.broken_stream
                           Sample.nearly_full)) 10 Hq Hk) as (Hrej & _ & _).
  destruct (proj2 (proj2 (stderr_only_on_errors Sample.broken_stream initial))
             10 Hq Hk) as (_ & _ & Herr).
  split; [|split].
  - apply Hrej. vm_compute. reflexivity.
  - apply Herr; [vm_compute; discriminate | reflexivity].
  - apply (proj1 (proj2 (stderr_only_on_errors Sample.input_uncountable initial))
             0 "encoding unavailable").
    + discriminate.
    + reflexivity.
Defined.

(** X8. What the user saw is what the transcript keeps: in an accepted turn
    the fragments written to standard output, between the echo of the
    question and the newline before the stats, concatenate to the content of
    the assistant message appended to the transcript. *)
Theorem reply_shown_is_reply_stored io st k :
  line io <> "q" ->
  countTokens (encodings_input io) (line io) = (k, None) ->
  int_add k (totalTokens (stats st)) <= MaxTokens ->
  let st' := session_of (iteration io st) in
  exists shown,
    stdout st'
    = (stdout st ++ [prompt; echo (line io)] ++ shown ++ [nl]
         ++ display_lines (stats st'))%list
    /\ last (messages st') (SystemMessage "")
       = AssistantMessage (String.concat "" shown).
Proof.
  intros Hq Hk Hb st'. subst st'.
  rewrite (iteration_accepted io st k Hq Hk Hb), exchange_spec.
  cbn [session_of messages stats stdout print].
  eexists. split.
  - rewrite <- app_assoc. reflexivity.
  - now rewrite last_last, concat_fragments.
Qed.

Lemma reply_shown_is_reply_stored_witness :
  exists shown,
    stdout (session_of (iteration Sample.question initial))
    = ([prompt; echo (line Sample.question)] ++ shown ++ [nl]
         ++ display_lines (stats (session_of (iteration Sample.question initial))))%list
    /\ last (messages (session_of (iteration Sample.question initial)))
            (SystemMessage "")
       = AssistantMessage (String.concat "" shown).
Proof.
  apply (reply_shown_is_reply_stored Sample.question initial 10).
  - discriminate.
  - reflexivity.
  - vm_compute. discriminate.
Defined.

(** X9. Nothing is read after the first ["q"]: a run whose earlier lines are
    not ["q"] ends at that line, whatever follows it, with the session the
    earlier lines produced plus the prompt, "Final Stats:" and the stats
    summary on standard output. *)
Theorem nothing_after_quit before q after st :
  Forall (fun io => line io <> "q") before ->
  line q = "q" ->
  let reached := session_of (loop before st) in
  loop (before ++ q :: after)%list st
  = Break (print reached
             ([prompt; final_stats] ++ display_lines (stats reached))).
Proof.
  intros Hbefore Hq reached.
  rewrite loop_app, (loop_continues before Hbefore st). fold reached.
  cbn [loop]. now rewrite (iteration_quit q reached Hq).
Qed.

Lemma nothing_after_quit_witness :
  loop ([Sample.question] ++ Sample.quit :: [Scenario.long_reply])%list initial
  = loop [Sample.question; Sample.quit] initial.
Proof.
  rewrite (nothing_after_quit [Sample.question] Sample.quit [Scenario.long_reply]).
  - reflexivity.
  - repeat constructor. discriminate.
  - reflexivity.
Defined.

(** ** The percentage of [display] *)

Section Percentage.

Import Float64.

Lemma round_half_even_bounds n d :
  0 < d -> n / d <= round_half_even n d <= n / d + 1.
Proof.
  intros Hd. unfold round_half_even.
  destruct (2 * (n mod d) ?= d); [destruct (Z.even (n / d))| |]; lia.
Qed.

Lemma round_half_even_mono n1 n2 d :
  0 < d -> n1 <= n2 -> round_half_even n1 d <= round_half_even n2 d.
Proof.
  intros Hd Hn.
  assert (Hq : n1 / d <= n2 / d) by (apply Z.div_le_mono; lia).
  destruct (Z.eq_dec (n1 / d) (n2 / d)) as [E|NE].
  - assert (Hr : n1 mod d <= n2 mod d).
    { rewrite !Z.mod_eq, E by lia. lia. }
    unfold round_half_even. rewrite E.
    destruct (Z.compare_spec (2 * (n1 mod d)) d);
      destruct (Z.compare_spec (2 * (n2 mod d)) d);
      destruct (Z.even (n2 / d)); lia.
  - pose proof (round_half_even_bounds n1 d Hd).
    pose proof (round_half_even_bounds n2 d Hd). lia.
Qed.

End Percentage.

(** X10. The float64 arithmetic of [display] loses nothing: for every total
    from 0 up to [2^48] the value handed to the format verb is exactly the
    rational [100 * totalTokens / MaxTokens]. *)
Theorem context_usage_is_exact s :
  0 <= totalTokens s < 2 ^ 48 ->
  represents (context_usage s) (100 * totalTokens s) MaxTokens.
Proof.
  destruct s as [total mc rem]. cbn [totalTokens]. intros Ht.
  destruct total as [|p|p]; [reflexivity| |lia].
  destruct (context_usage_exact p mc rem) as (m & Hcu & Hm & Hd); [lia|].
  rewrite Hcu. set (d := Zpos (digits2_pos (25 * p))) in *.
  unfold represents.
  destruct (Z.leb_spec 0 (d - 63)) as [H|_]; [lia|].
  rewrite Hm.
  replace (2 ^ (- (d - 63))) with (1024 * 2 ^ (53 - d))
    by (change 1024 with (2 ^ 10); rewrite <- Z.pow_add_r by lia; f_equal; lia).
  unfold MaxTokens. ring.
Qed.

Lemma context_usage_is_exact_witness :
  represents (context_usage (mkStats 4095 2 1)) (100 * 4095) MaxTokens.
Proof.
  apply (context_usage_is_exact (mkStats 4095 2 1)). simpl. lia.
Defined.

(** X11. The percentage shown never decreases as tokens are used, and it
    stays within 0.0% and 100.0% as long as the total is within
    [MaxTokens]: for totals [a <= b] below [2^48], [display] shows
    [ta / 10] and [tb / 10] percent with [0 <= ta <= tb], and [tb <= 1000]
    when [b <= MaxTokens]. *)
Theorem percentage_monotone sa sb :
  0 <= totalTokens sa ->
  totalTokens sa <= totalTokens sb ->
  totalTokens sb < 2 ^ 48 ->
  exists ta tb,
    shown_percentage sa = Float64.show_tenths ta ++ "%"
    /\ shown_percentage sb = Float64.show_tenths tb ++ "%"
    /\ 0 <= ta <= tb
    /\ (totalTokens sb <= MaxTokens -> tb <= 1000).
Proof.
  intros H0 Hab Hb.
  exists (Float64.round_half_even (1000 * totalTokens sa) MaxTokens),
         (Float64.round_half_even (1000 * totalTokens sb) MaxTokens).
  rewrite !shown_percentage_exact by lia.
  split; [reflexivity|]. split; [reflexivity|].
  assert (Hd : 0 < MaxTokens) by (unfold MaxTokens; lia).
  split; [split|].
  - apply Z.le_trans with (Float64.round_half_even (1000 * 0) MaxTokens);
      [vm_compute; discriminate | apply round_half_even_mono; lia].
  - apply round_half_even_mono; lia.
  - intros Hle.
    apply Z.le_trans with (Float64.round_half_even (1000 * MaxTokens) MaxTokens);
      [apply round_half_even_mono; lia | vm_compute; discriminate].
Qed.

Lemma percentage_monotone_witness :
  exists ta tb,
    shown_percentage (mkStats 100 2 3996) = Float64.show_tenths ta ++ "%"
    /\ shown_percentage (mkStats 4096 4 0) = Float64.show_tenths tb ++ "%"
    /\ 0 <= ta <= tb
    /\ (totalTokens (mkStats 4096 4 0) <= MaxTokens -> tb <= 1000).
Proof.
  apply (percentage_monotone (mkStats 100 2 3996) (mkStats 4096 4 0));
    simpl; lia.
Defined.

Section Bounds.

Lemma loop_invariant_on (Q : TurnIO -> Prop) (P : Session -> Prop) :
  (forall io st, Q io -> P st -> P (session_of (iteration io st))) ->
  forall ios, Forall Q ios -> forall st, P st -> P (session_of (loop ios st)).
Proof.
  intros Hstep ios HQ. induction HQ as [|io ios Hio _ IH]; intros st Hst;
    cbn [loop].
  - exact Hst.
  - specialize (Hstep io st Hio Hst).
    destruct (iteration io st) as [st'|st']; [now apply IH | exact Hstep].
Qed.

Lemma fragments_text fs : response_text (fragments fs) = String.concat "" fs.
Proof.
  rewrite <- concat_fragments. f_equal. unfold fragments.
  induction fs as [|f fs IH]; cbn; congruence.
Qed.

End Bounds.

(** X12. The total can pass the ceiling by one reply at most, and never
    goes down: if no text is ever counted above [B] tokens (with
    [MaxTokens + 2 * B] within an [int]), a run that starts with a total
    between 0 and [MaxTokens + B] ends with a total that is at least the
    starting one and at most [MaxTokens + B]; an input rejected for its size
    at the start is still too large at the end. *)
Theorem overshoot_is_bounded B ios st :
  0 <= B -> MaxTokens + 2 * B <= int_max ->
  Forall (fun io =>
            forall text,
              fst (countTokens (encodings_input io) text) <= B
              /\ fst (countTokens (encodings_response io) text) <= B) ios ->
  0 <= totalTokens (stats st) <= MaxTokens + B ->
  let T' := totalTokens (stats (session_of (loop ios st))) in
  totalTokens (stats st) <= T' <= MaxTokens + B
  /\ (forall k, MaxTokens < totalTokens (stats st) + k -> MaxTokens < T' + k).
Proof.
  intros HB Hfit Hsmall HT. cbv zeta.
  assert (H : totalTokens (stats st)
              <= totalTokens (stats (session_of (loop ios st)))
              <= MaxTokens + B).
  { refine (loop_invariant_on _
              (fun s => totalTokens (stats st) <= totalTokens (stats s)
                        <= MaxTokens + B) _ ios Hsmall st _); [|lia].
    intros io s Hio Hs.
    destruct (iteration_effect io s)
      as [[_ Es]|(a & k & r & Hk & Hr & Ek & Hle & Er & _ & Es)];
      rewrite Es; [exact Hs|].
    destruct (Hio (line io)) as [Hkb _]. rewrite Ek in Hkb. cbn [fst] in Hkb.
    destruct (Hio a) as [_ Hrb]. rewrite <- Er in Hrb.
    cbn [update totalTokens].
    rewrite int_add_exact in Hle
      by (unfold in_int, int_min, int_max, MaxTokens in *; lia).
    rewrite (int_add_exact (totalTokens (stats s)) k)
      by (unfold in_int, int_min, int_max, MaxTokens in *; lia).
    rewrite int_add_exact
      by (unfold in_int, int_min, int_max, MaxTokens in *; lia).
    lia. }
  split; [exact H|]. intros k Hk. lia.
Qed.

Lemma overshoot_is_bounded_witness :
  0 <= totalTokens (stats (session_of
                             (loop [Scenario.long_reply; Sample.question] initial)))
    <= MaxTokens + 5000.
Proof.
  apply (overshoot_is_bounded 5000 [Scenario.long_reply; Sample.question] initial).
  - lia.
  - vm_compute. discriminate.
  - repeat constructor; vm_compute; discriminate.
  - vm_compute. split; discriminate.
Defined.

(** X13. The transcript and the stats depend on a reply only through its
    whole text, not on how the stream cut it into fragments: two turns that
    differ only in the fragments delivered, with the same concatenation,
    leave the same transcript and the same stats. *)
Theorem chunking_is_irrelevant io1 io2 st fs1 fs2 e1 e2 :
  line io1 = line io2 ->
  encodings_input io1 = encodings_input io2 ->
  encodings_response io1 = encodings_response io2 ->
  let request := (messages st ++ [UserMessage (line io1)])%list in
  NewStreaming io1 request = mkStream (fragments fs1) e1 ->
  NewStreaming io2 request = mkStream (fragments fs2) e2 ->
  String.concat "" fs1 = String.concat "" fs2 ->
  messages (session_of (iteration io1 st)) = messages (session_of (iteration io2 st))
  /\ stats (session_of (iteration io1 st)) = stats (session_of (iteration io2 st)).
Proof.
  intros Hl Hi Hr request H1 H2 Hc.
  unfold iteration. rewrite <- Hl, <- Hi.
  destruct (String.eqb (line io1) "q"); [split; reflexivity|].
  destruct (countTokens (encodings_input io1) (line io1)) as [k [e|]];
    [split; reflexivity|].
  cbn [stats print].
  destruct (int_add k (totalTokens (stats st)) >? MaxTokens);
    [split; reflexivity|].
  rewrite !exchange_spec. cbn [session_of messages stats print].
  fold request. rewrite H1, H2, <- Hr. cbn [chunks].
  rewrite !fragments_text, Hc. split; reflexivity.
Qed.

Lemma chunking_is_irrelevant_witness :
  let other :=
    {| line := line Sample.question;
       encodings_input := encodings_input Sample.question;
       NewStreaming := fun _ => mkStream (fragments ["Hel"; "lo w"; "orld"]) None;
       encodings_response := encodings_response Sample.question |} in
  messages (session_of (iteration Sample.question initial))
  = messages (session_of (iteration other initial))
  /\ stats (session_of (iteration Sample.question initial))
     = stats (session_of (iteration other initial)).
Proof.
  cbv zeta.
  eapply chunking_is_irrelevant; reflexivity.
Defined.
